(** * A shallow embedding of the gesture tracker of hello-myo.cpp

    [DataCollector] is modelled as a record.  The [float] members are modelled
    as exact rationals [Q] for the tracker (the comparisons the claims are
    about are strict inequalities and equalities on display values), and the
    orientation decoder is modelled over the reals [R] in module [Decoder].
    The rounding of [float] arithmetic (IEEE binary32, round to nearest
    even) is modelled by [fl32]; it is used for the gauge widths and for a
    float version of the tolerance test, [epsilonCompare_f32], which agrees
    with the exact [epsilonCompare] except within 2^-19 of the tolerance.
    One call of [DataCollector::print] is the function [print]; the console
    output it produces is recorded as a list of [Event]s.  The two-second
    busy-waits only consume time and leave the state alone, so they are
    modelled as nothing. *)

From Stdlib Require Import String Ascii List QArith Qabs Qminmax Qpower Qround Lia.
From Stdlib Require Import Reals Lra Lqa.
Import ListNotations.

Local Open Scope string_scope.

(** ** Poses, as delivered by the device SDK ([myo::Pose]) *)

Inductive Pose :=
| rest | fist | waveIn | waveOut | fingersSpread | doubleTap | unknown.

(** [Pose::toString] of the SDK. *)
Definition pose_toString (p : Pose) : string :=
  match p with
  | rest => "rest"
  | fist => "fist"
  | waveIn => "waveIn"
  | waveOut => "waveOut"
  | fingersSpread => "fingersSpread"
  | doubleTap => "doubleTap"
  | unknown => "unknown"
  end.

(** ** [std::map<std::string, std::string>] as an association list *)

Module StrMap.
Definition t := list (string * string).

(** [m[k] = v]: overwrite the entry of [k], or add one. *)
Fixpoint set (k v : string) (m : t) : t :=
  match m with
  | [] => [(k, v)]
  | (k', v') :: m' =>
      if String.eqb k k' then (k, v) :: m' else (k', v') :: set k v m'
  end.

(** Read access of [m[k]]: the value of the entry of [k], or the default
    [std::string()] (empty) when there is none. *)
Fixpoint get (k : string) (m : t) : string :=
  match m with
  | [] => ""
  | (k', v') :: m' => if String.eqb k k' then v' else get k m'
  end.
End StrMap.

(** The table built in [matchLetterToGesture], assignments in source order. *)
Definition letterMap : StrMap.t :=
  fold_left (fun m kv => StrMap.set (fst kv) (snd kv) m)
    [ (""," "); ("pitchyawpitch","a"); ("rollpitch","b"); ("roll","c");
      ("rollpitch","d"); ("rollpitchyaw","e"); ("pitchpitchyaw","f");
      ("rollpitchyaw","g"); ("pitchroll","h"); ("yawpitchyaw","i");
      ("yawpitchroll","j"); ("pitchyawyaw","k") ] [].

Definition matchLetterToGesture (gesture : string) : string :=
  StrMap.get gesture letterMap.

(** ** Float comparisons *)

Definition Qltb (a b : Q) : bool := negb (Qle_bool b a).

(** [epsilonCompare]: [!(var2 < var1 - err || var2 > var1 + err)]. *)
Definition epsilonCompare (var1 var2 err : Q) : bool :=
  negb (Qltb var2 (var1 - err) || Qltb (var1 + err) var2).

Definition tol : Q := 7 # 10.

(** ** Binary32 rounding *)

(** [N / D] rounded to the nearest integer, ties to even ([D > 0]). *)
Definition round_ne (N D : Z) : Z :=
  let q := (N / D)%Z in
  match Z.compare (2 * (N mod D)) D with
  | Lt => q
  | Gt => (q + 1)%Z
  | Eq => if Z.even q then q else (q + 1)%Z
  end.

Definition pow2 (k : Z) : Q := Qpower (inject_Z 2) k.

(** Rounding of a rational to the nearest [float] (24-bit significand,
    subnormals down to 2^-149, ties to even; no overflow, the values here are
    small).  [e] is the binary exponent of [|x|], [qe] the exponent of its
    last significand bit. *)
Definition fl32 (x : Q) : Q :=
  let a := Z.abs (Qnum x) in
  let d := Zpos (Qden x) in
  if (a =? 0)%Z then 0 else
  let e0 := (Z.log2 a - Z.log2 d)%Z in
  let e := if Qle_bool (pow2 e0) (inject_Z a / inject_Z d) then e0 else (e0 - 1)%Z in
  let qe := Z.max (e - 23) (-149) in
  let m := if (qe <=? 0)%Z then round_ne (a * 2 ^ (- qe)) d
           else round_ne a (d * 2 ^ qe) in
  inject_Z (Z.sgn (Qnum x) * m) * pow2 qe.

(** The argument [0.7] converted to the [float] parameter [err]: 0.7f. *)
Definition tol_f32 : Q := 11744051 # 16777216.

(** [epsilonCompare] with its two [float] sums rounded. *)
Definition epsilonCompare_f32 (var1 var2 err : Q) : bool :=
  negb (Qltb var2 (fl32 (var1 - err)) || Qltb (fl32 (var1 + err)) var2).

(** ** The state of a [DataCollector] *)

Record DataCollector := mkDC {
  onArm : bool;
  isUnlocked : bool;
  roll_w : Q; pitch_w : Q; yaw_w : Q;
  currentPose : Pose;
  home_roll : Q; home_yaw : Q; home_pitch : Q;
  max_roll : Q; max_yaw : Q; max_pitch : Q;
  gestures : string;
  word : string
}.

(** Observable output of [print] beyond the gauges. *)
Inductive Event :=
| EvFist                 (* "fist\n" *)
| EvLetter (l : string)  (* the committed letter *)
| EvWord (w : string)    (* the word after the commit *)
| EvSystem (cmd : string)
| EvHomeReached          (* "home reached\n" *)
| EvLabel (a : string).  (* "yaw\n", "roll\n" or "pitch\n" *)

(** Lines 153-161: set home, commit the letter, clear the buffer. *)
Definition commit_fist (s : DataCollector) : DataCollector * list Event :=
  let letter := matchLetterToGesture (gestures s) in
  let w := word s ++ letter in
  ({| onArm := onArm s; isUnlocked := isUnlocked s;
      roll_w := roll_w s; pitch_w := pitch_w s; yaw_w := yaw_w s;
      currentPose := currentPose s;
      home_roll := roll_w s; home_yaw := yaw_w s; home_pitch := pitch_w s;
      max_roll := max_roll s; max_yaw := max_yaw s; max_pitch := max_pitch s;
      gestures := "";
      word := w |}, [EvFist; EvLetter letter; EvWord w]).

(** The test of line 176. *)
Definition at_home (s : DataCollector) : bool :=
  epsilonCompare (roll_w s) (home_roll s) tol &&
  epsilonCompare (pitch_w s) (home_pitch s) tol &&
  epsilonCompare (yaw_w s) (home_yaw s) tol.

(** The test of line 176 with float rounding. *)
Definition at_home_f32 (s : DataCollector) : bool :=
  epsilonCompare_f32 (roll_w s) (home_roll s) tol_f32 &&
  epsilonCompare_f32 (pitch_w s) (home_pitch s) tol_f32 &&
  epsilonCompare_f32 (yaw_w s) (home_yaw s) tol_f32.

(** An axis deviation farther than 2^-19 from the tolerance 0.7. *)
Definition clear_of_tol (dev : Q) : Prop :=
  dev <= (7 # 10) - (1 # 524288) \/ (7 # 10) + (1 # 524288) <= dev.

(** Lines 184-198: the three label tests, in source order, then the reset. *)
Definition home_reached (s : DataCollector) : DataCollector * list Event :=
  let r := max_roll s in let p := max_pitch s in let y := max_yaw s in
  let '(g1, e1) :=
    if Qltb r y && Qltb p y then (gestures s ++ "yaw", [EvLabel "yaw"])
    else (gestures s, []) in
  let '(g2, e2) :=
    if Qltb y r && Qltb p r then (g1 ++ "roll", app e1 [EvLabel "roll"])
    else (g1, e1) in
  let '(g3, e3) :=
    if Qltb r p && Qltb y p then (g2 ++ "pitch", app e2 [EvLabel "pitch"])
    else (g2, e2) in
  ({| onArm := onArm s; isUnlocked := isUnlocked s;
      roll_w := roll_w s; pitch_w := pitch_w s; yaw_w := yaw_w s;
      currentPose := currentPose s;
      home_roll := home_roll s; home_yaw := home_yaw s; home_pitch := home_pitch s;
      max_roll := 0; max_yaw := 0; max_pitch := 0;
      gestures := g3;
      word := word s |}, EvHomeReached :: e3).

(** Lines 202-210: observe the deviation from home. *)
Definition observe_delta (s : DataCollector) : DataCollector :=
  let dr := Qabs (roll_w s - home_roll s) in
  let dy := Qabs (yaw_w s - home_yaw s) in
  let dp := Qabs (pitch_w s - home_pitch s) in
  {| onArm := onArm s; isUnlocked := isUnlocked s;
     roll_w := roll_w s; pitch_w := pitch_w s; yaw_w := yaw_w s;
     currentPose := currentPose s;
     home_roll := home_roll s; home_yaw := home_yaw s; home_pitch := home_pitch s;
     max_roll := if Qltb (max_roll s) dr then dr else max_roll s;
     max_yaw := if Qltb (max_yaw s) dy && negb (Qeq_bool dy 17) then dy
                else max_yaw s;
     max_pitch := if Qltb (max_pitch s) dp then dp else max_pitch s;
     gestures := gestures s;
     word := word s |}.

(** [DataCollector::print], without the gauges. *)
Definition print (s : DataCollector) : DataCollector * list Event :=
  if onArm s then
    let poseString := pose_toString (currentPose s) in
    if String.eqb poseString "fist" then commit_fist s
    else if String.eqb poseString "fingersSpread" then
      (s, [EvSystem ("python testgrid.py " ++ word s)])
    else if String.eqb poseString "waveOut" then
      (s, [EvSystem ("python testtwil.py " ++ word s)])
    else
      let '(s1, ev) := if at_home s then home_reached s else (s, []) in
      (observe_delta s1, ev)
  else (s, []).

(** Event handlers that feed [print]: [onOrientationData] stores the display
    values and [onPose] the pose. *)
Definition set_orientation (r p y : Q) (s : DataCollector) : DataCollector :=
  {| onArm := onArm s; isUnlocked := isUnlocked s;
     roll_w := r; pitch_w := p; yaw_w := y;
     currentPose := currentPose s;
     home_roll := home_roll s; home_yaw := home_yaw s; home_pitch := home_pitch s;
     max_roll := max_roll s; max_yaw := max_yaw s; max_pitch := max_pitch s;
     gestures := gestures s; word := word s |}.

Definition onPose (pose : Pose) (s : DataCollector) : DataCollector :=
  {| onArm := onArm s; isUnlocked := isUnlocked s;
     roll_w := roll_w s; pitch_w := pitch_w s; yaw_w := yaw_w s;
     currentPose := pose;
     home_roll := home_roll s; home_yaw := home_yaw s; home_pitch := home_pitch s;
     max_roll := max_roll s; max_yaw := max_yaw s; max_pitch := max_pitch s;
     gestures := gestures s; word := word s |}.

(** One iteration of the main loop: the events of [hub.run] (an orientation
    sample and the current pose), then [collector.print()]. *)
Definition tick (r p y : Q) (pose : Pose) (s : DataCollector)
  : DataCollector * list Event :=
  print (onPose pose (set_orientation r p y s)).

Fixpoint run (inputs : list (Q * Q * Q * Pose)) (s : DataCollector)
  : DataCollector * list Event :=
  match inputs with
  | [] => (s, [])
  | (r, p, y, pose) :: more =>
      let '(s1, e1) := tick r p y pose s in
      let '(s2, e2) := run more s1 in
      (s2, app e1 e2)
  end.

(** The collector after construction, with the arm synced.  [max_*] have no
    initializer in the source; they are given as arguments. *)
Definition synced (mr mp my : Q) : DataCollector :=
  {| onArm := true; isUnlocked := false;
     roll_w := 0; pitch_w := 0; yaw_w := 0;
     currentPose := rest;
     home_roll := -1; home_yaw := -1; home_pitch := -1;
     max_roll := mr; max_yaw := my; max_pitch := mp;
     gestures := ""; word := "" |}.

(** The poses that reach the home test of [print] (the last [else]). *)
Definition plain_pose (p : Pose) : bool :=
  match p with fist | fingersSpread | waveOut => false | _ => true end.

(** How many times "home reached" was printed. *)
Definition fired_count (ev : list Event) : nat :=
  length (filter (fun e => match e with EvHomeReached => true | _ => false end) ev).

(** ** More event handlers *)

(** [onUnpair]: lines 32-36. *)
Definition onUnpair (s : DataCollector) : DataCollector :=
  {| onArm := false; isUnlocked := false;
     roll_w := 0; pitch_w := 0; yaw_w := 0;
     currentPose := currentPose s;
     home_roll := home_roll s; home_yaw := home_yaw s; home_pitch := home_pitch s;
     max_roll := max_roll s; max_yaw := max_yaw s; max_pitch := max_pitch s;
     gestures := gestures s; word := word s |}.

(** [onArmUnsync]: line 109. *)
Definition onArmUnsync (s : DataCollector) : DataCollector :=
  {| onArm := false; isUnlocked := isUnlocked s;
     roll_w := roll_w s; pitch_w := pitch_w s; yaw_w := yaw_w s;
     currentPose := currentPose s;
     home_roll := home_roll s; home_yaw := home_yaw s; home_pitch := home_pitch s;
     max_roll := max_roll s; max_yaw := max_yaw s; max_pitch := max_pitch s;
     gestures := gestures s; word := word s |}.

(** ** The status line printed by [print] (lines 132-149, 216) *)

(** [std::string(n, c)]. *)
Fixpoint chars (n : nat) (c : ascii) : string :=
  match n with
  | O => ""
  | S n' => String c (chars n' c)
  end.

(** The conversion of a non-negative [float] to [size_t]: truncation. *)
Definition to_size (v : Q) : nat := Z.to_nat (Qnum v / Zpos (Qden v)).

(** One gauge: ['['], [std::string(v, '*')], [std::string(18 - v, ' ')],
    [']']; [18 - v] is a [float] subtraction. *)
Definition gauge (v : Q) : string :=
  "[" ++ chars (to_size v) "*" ++ chars (to_size (fl32 (18 - v))) " " ++ "]".

(** The arm fields; [leftArm] is [whichArm == myo::armLeft].  All pose names
    are at most 14 long, so [14 - poseString.size()] does not wrap in
    [size_t] and agrees with the subtraction on [nat]. *)
Definition render_arm (s : DataCollector) (leftArm : bool) : string :=
  if onArm s then
    let poseString := pose_toString (currentPose s) in
    "[" ++ (if isUnlocked s then "unlocked" else "locked  ") ++ "]" ++
    "[" ++ (if leftArm then "L" else "R") ++ "]" ++
    "[" ++ poseString ++ chars (14 - String.length poseString) " " ++ "]"
  else "[" ++ chars 8 " " ++ "]" ++ "[?]" ++ "[" ++ chars 14 " " ++ "]".

(** The axis labels the Gesture Buffer is built from. *)
Inductive labels : string -> Prop :=
| labels_nil : labels ""
| labels_snoc g l : labels g -> In l ["yaw"; "roll"; "pitch"] -> labels (g ++ l).

(** ** Reflection of the comparisons *)

Lemma Qltb_spec a b : Bool.reflect (a < b) (Qltb a b).
Proof.
  unfold Qltb. destruct (Qle_bool b a) eqn:E; constructor.
  - apply Qle_bool_iff in E. lra.
  - apply Qnot_le_lt. intro H. apply Qle_bool_iff in H. congruence.
Qed.

Lemma Qeqb_spec a b : Bool.reflect (a == b) (Qeq_bool a b).
Proof.
  destruct (Qeq_bool a b) eqn:E; constructor.
  - now apply Qeq_bool_iff.
  - intro H. apply Qeq_bool_iff in H. congruence.
Qed.

(** Unfold the steps of [print] and reduce the record projections. *)
Ltac red_all :=
  do 2 (
    cbv beta iota zeta delta [andb orb negb set_orientation onPose
      observe_delta home_reached at_home epsilonCompare];
    cbn [onArm isUnlocked roll_w pitch_w yaw_w currentPose home_roll home_yaw
      home_pitch max_roll max_yaw max_pitch gestures word fst snd]).

Ltac no_cmp t :=
  lazymatch t with
  | context [Qltb _ _] => fail
  | context [Qeq_bool _ _] => fail
  | _ => idtac
  end.

(** Decide every comparison in the goal, innermost first, dropping the
    impossible branches. *)
Ltac qcases :=
  repeat (match goal with
  | |- context [Qltb ?a ?b] =>
      no_cmp a; no_cmp b; destruct (Qltb_spec a b); try (exfalso; lra)
  | |- context [Qeq_bool ?a ?b] =>
      no_cmp a; no_cmp b; destruct (Qeqb_spec a b); try (exfalso; lra)
  end; red_all).

Lemma epsilonCompare_spec v1 v2 e :
  epsilonCompare v1 v2 e = true <-> v1 - e <= v2 <= v1 + e.
Proof.
  unfold epsilonCompare. qcases; simpl; split; intros; try lra; discriminate.
Qed.

Lemma string_append_nil_r (w : string) : w ++ "" = w.
Proof. induction w as [|c w IH]; simpl; [reflexivity | now rewrite IH]. Qed.

Lemma print_plain s :
  onArm s = true -> plain_pose (currentPose s) = true ->
  print s = (let '(s1, ev) := if at_home s then home_reached s else (s, []) in
             (observe_delta s1, ev)).
Proof.
  intros Ha Hp. unfold print. rewrite Ha.
  destruct (currentPose s); try discriminate; reflexivity.
Qed.

Lemma print_fist s :
  onArm s = true -> currentPose s = fist -> print s = commit_fist s.
Proof. intros Ha Hp. unfold print. now rewrite Ha, Hp. Qed.

Lemma fired_count_print s :
  fired_count (snd (print s)) =
  if onArm s && plain_pose (currentPose s) && at_home s then 1%nat else 0%nat.
Proof.
  unfold print. destruct (onArm s); [|reflexivity].
  destruct (currentPose s); simpl; try reflexivity;
  destruct (at_home s); simpl; try reflexivity;
  unfold home_reached; simpl; qcases; reflexivity.
Qed.

Example letter_roll : matchLetterToGesture "roll" = "c".
Proof. reflexivity. Qed.

Lemma fst_run ins s :
  fst (run ins s) =
  fold_left (fun s i => let '(r, p, y, pose) := i in fst (tick r p y pose s)) ins s.
Proof.
  revert s. induction ins as [|[[[r p] y] pose] ins IH]; intro s; [reflexivity|].
  simpl. destruct (tick r p y pose s) as [s1 e1]; simpl.
  rewrite <- IH. now destruct (run ins s1).
Qed.

Lemma tick_fist_eq r p y s :
  onArm s = true ->
  fst (tick r p y fist s) =
  {| onArm := onArm s; isUnlocked := isUnlocked s;
     roll_w := r; pitch_w := p; yaw_w := y; currentPose := fist;
     home_roll := r; home_yaw := y; home_pitch := p;
     max_roll := max_roll s; max_yaw := max_yaw s; max_pitch := max_pitch s;
     gestures := ""; word := word s ++ matchLetterToGesture (gestures s) |}.
Proof. intro H. unfold tick. rewrite print_fist by (simpl; auto). reflexivity. Qed.

Lemma tick_plain_eq r p y pose s :
  onArm s = true -> plain_pose pose = true ->
  fst (tick r p y pose s) =
  let s0 := onPose pose (set_orientation r p y s) in
  observe_delta (if at_home s0 then fst (home_reached s0) else s0).
Proof.
  intros H Hp. unfold tick. rewrite print_plain by (simpl; auto).
  simpl. destruct (at_home _); [destruct (home_reached _)|]; reflexivity.
Qed.

Lemma eps_false v1 v2 e :
  ~ (v1 - e <= v2 <= v1 + e) -> epsilonCompare v1 v2 e = false.
Proof.
  intro H. destruct (epsilonCompare v1 v2 e) eqn:E; [|reflexivity].
  exfalso. apply H, epsilonCompare_spec, E.
Qed.

Ltac proj_red := cbn [onArm isUnlocked roll_w pitch_w yaw_w currentPose
  home_roll home_yaw home_pitch max_roll max_yaw max_pitch gestures word fst snd].

(** Rewrite the innermost [tick] applied to an explicit state. *)
Ltac tick_step :=
  match goal with
  | |- context [fst (tick ?r ?p ?y fist
        (mkDC ?a1 ?a2 ?a3 ?a4 ?a5 ?a6 ?a7 ?a8 ?a9 ?a10 ?a11 ?a12 ?a13 ?a14))] =>
      rewrite (tick_fist_eq r p y
        (mkDC a1 a2 a3 a4 a5 a6 a7 a8 a9 a10 a11 a12 a13 a14) eq_refl);
      proj_red
  | |- context [fst (tick ?r ?p ?y ?pose
        (mkDC ?a1 ?a2 ?a3 ?a4 ?a5 ?a6 ?a7 ?a8 ?a9 ?a10 ?a11 ?a12 ?a13 ?a14))] =>
      rewrite (tick_plain_eq r p y pose
        (mkDC a1 a2 a3 a4 a5 a6 a7 a8 a9 a10 a11 a12 a13 a14) eq_refl eq_refl);
      cbv zeta; unfold at_home, epsilonCompare, tol, set_orientation, onPose,
        observe_delta, home_reached; proj_red
  end.

Lemma string_append_assoc (a b c : string) : (a ++ b) ++ c = a ++ (b ++ c).
Proof. induction a as [|x a IH]; simpl; [reflexivity | now rewrite IH]. Qed.

Lemma Qabs_self q : Qabs (q - q) == 0.
Proof. rewrite Qabs_pos; lra. Qed.

(** The scenario of the spec from a freshly synced collector. *)
Definition scenario_C1 : list (Q * Q * Q * Pose) :=
  [(9,9,9,fist); (12,9,9,rest); (9,9,9,rest); (9,9,9,fist)].

Lemma home_reached_fields s :
  let s' := fst (home_reached s) in
  onArm s' = onArm s /\ currentPose s' = currentPose s /\
  roll_w s' = roll_w s /\ pitch_w s' = pitch_w s /\ yaw_w s' = yaw_w s /\
  home_roll s' = home_roll s /\ home_pitch s' = home_pitch s /\
  home_yaw s' = home_yaw s /\
  max_roll s' = 0 /\ max_pitch s' = 0 /\ max_yaw s' = 0 /\ word s' = word s.
Proof.
  unfold home_reached.
  destruct (Qltb (max_roll s) (max_yaw s)), (Qltb (max_pitch s) (max_yaw s)),
    (Qltb (max_yaw s) (max_roll s)), (Qltb (max_pitch s) (max_roll s)),
    (Qltb (max_roll s) (max_pitch s)), (Qltb (max_yaw s) (max_pitch s));
  simpl; repeat split.
Qed.

Lemma print_home s :
  onArm s = true -> plain_pose (currentPose s) = true -> at_home s = true ->
  fst (print s) = observe_delta (fst (home_reached s)).
Proof.
  intros Ha Hp Hh. rewrite print_plain by assumption. rewrite Hh.
  now destruct (home_reached s).
Qed.

Lemma print_away s :
  onArm s = true -> plain_pose (currentPose s) = true -> at_home s = false ->
  fst (print s) = observe_delta s.
Proof.
  intros Ha Hp Hh. rewrite print_plain by assumption. now rewrite Hh.
Qed.

Lemma fired_print s :
  fired_count (snd (print s)) = 1%nat ->
  onArm s = true /\ plain_pose (currentPose s) = true /\ at_home s = true.
Proof.
  rewrite fired_count_print.
  destruct (onArm s), (plain_pose (currentPose s)), (at_home s);
    simpl; intro H; try discriminate; auto.
Qed.


Definition home_set_state : DataCollector := fst (run [(9,9,9,fist)] (synced 0 0 0)).

Lemma at_home_observe s : at_home (observe_delta s) = at_home s.
Proof. reflexivity. Qed.

Lemma at_home_home_reached s : at_home (fst (home_reached s)) = at_home s.
Proof.
  destruct (home_reached_fields s) as (_ & _ & Er & Ep & Ey & Hr & Hp & Hy & _).
  unfold at_home. now rewrite Er, Ep, Ey, Hr, Hp, Hy.
Qed.

(** The label selection as the spec words it: the axis whose accumulator
    is strictly greater than each of the other two, none on a tie. *)
Definition dominant_label (r p y : Q) : string :=
  if Qltb p r && Qltb y r then "roll"
  else if Qltb r p && Qltb y p then "pitch"
  else if Qltb r y && Qltb p y then "yaw"
  else "".

Definition pose_is_fist (p : Pose) : bool :=
  match p with fist => true | _ => false end.

(** ** The Orientation Decoder ([onOrientationData]) over the reals *)

Module Decoder.
Local Open Scope R_scope.

(** [std::atan2] with its range [-pi, pi]. *)
Definition atan2 (y x : R) : R :=
  if Rlt_dec 0 x then atan (y / x)
  else if Rlt_dec x 0 then
    (if Rle_dec 0 y then atan (y / x) + PI else atan (y / x) - PI)
  else if Rlt_dec 0 y then PI / 2
  else if Rlt_dec y 0 then - (PI / 2)
  else 0.

(** [max(-1.0f, min(1.0f, t))]. *)
Definition clamp (t : R) : R := Rmax (-1) (Rmin 1 t).

Definition roll_of (w x y z : R) : R :=
  atan2 (2 * (w * x + y * z)) (1 - 2 * (x * x + y * y)).
Definition pitch_arg (w x y z : R) : R := clamp (2 * (w * y - z * x)).
Definition pitch_of (w x y z : R) : R := asin (pitch_arg w x y z).
Definition yaw_of (w x y z : R) : R :=
  atan2 (2 * (w * z + x * y)) (1 - 2 * (y * y + z * z)).

(** The display values [roll_w], [pitch_w], [yaw_w]. *)
Definition onOrientationData (w x y z : R) : R * R * R :=
  ((roll_of w x y z + PI) / (PI * 2) * 18,
   (pitch_of w x y z + PI / 2) / PI * 18,
   (yaw_of w x y z + PI) / (PI * 2) * 18).

Definition unit_quaternion (w x y z : R) : Prop :=
  w * w + x * x + y * y + z * z = 1.

Lemma atan_nonpos q : q <= 0 -> atan q <= 0.
Proof.
  intro H. rewrite <- atan_0. destruct (Req_dec q 0) as [->|Hq]; [Lra.lra|].
  left. apply atan_increasing. Lra.lra.
Qed.

Lemma atan_pos q : 0 < q -> 0 < atan q.
Proof. intro H. rewrite <- atan_0. now apply atan_increasing. Qed.

Lemma atan2_bound y x : - PI <= atan2 y x <= PI.
Proof.
  pose proof PI_RGT_0. pose proof (atan_bound (y / x)).
  unfold atan2.
  destruct (Rlt_dec 0 x); [Lra.lra|].
  destruct (Rlt_dec x 0) as [Hx|].
  - assert (Hi : / x < 0) by (apply Rinv_lt_0_compat; exact Hx).
    destruct (Rle_dec 0 y).
    + assert (y / x <= 0) by (unfold Rdiv; Lra.nra).
      pose proof (atan_nonpos (y / x) ltac:(assumption)). Lra.lra.
    + assert (0 < y / x) by (unfold Rdiv; Lra.nra).
      pose proof (atan_pos (y / x) ltac:(assumption)). Lra.lra.
  - destruct (Rlt_dec 0 y); [Lra.lra|].
    destruct (Rlt_dec y 0); Lra.lra.
Qed.

Lemma clamp_bound t : -1 <= clamp t <= 1.
Proof.
  unfold clamp, Rmax, Rmin.
  destruct (Rle_dec t 1), (Rle_dec (-1) (if Rle_dec 1 t then 1 else t));
    destruct (Rle_dec 1 t); Lra.lra.
Qed.

Lemma scale_bound a c d :
  0 < d -> - c <= a <= d - c -> 0 <= (a + c) / d * 18 <= 18.
Proof.
  intros Hd Ha.
  assert (Hk : 0 < / d) by (apply Rinv_0_lt_compat; Lra.lra).
  assert (Hone : d * / d = 1) by (apply Rinv_r; Lra.lra).
  unfold Rdiv. split; Lra.nra.
Qed.
End Decoder.

(** ** Properties of the rounding *)

Lemma round_ne_spec N D : (0 < D)%Z -> (Z.abs (2 * (D * round_ne N D - N)) <= D)%Z.
Proof.
  intro HD. unfold round_ne.
  pose proof (Z.div_mod N D ltac:(lia)) as E.
  pose proof (Z.mod_pos_bound N D HD) as B.
  set (q := (N / D)%Z) in *. set (r := (N mod D)%Z) in *.
  destruct (Z.compare_spec (2 * r) D).
  - destruct (Z.even q); lia.
  - lia.
  - lia.
Qed.

Lemma round_ne_exact N D : (0 < D)%Z -> (N mod D = 0)%Z -> round_ne N D = (N / D)%Z.
Proof.
  intros HD Hm. unfold round_ne. rewrite Hm.
  destruct (Z.compare_spec (2 * 0) D); lia.
Qed.

Lemma pow2_neg K P : (0 <= K)%Z -> (2 ^ K)%Z = Zpos P -> pow2 (- K) == 1 # P.
Proof.
  intros HK HP. unfold pow2. rewrite Qpower_opp, <- Zpower_Qpower by lia.
  rewrite HP. reflexivity.
Qed.

Lemma pow2_lt_inv a b : pow2 a < pow2 b -> (a < b)%Z.
Proof. intro H. apply (Qpower_lt_compat_l_inv (inject_Z 2)); [exact H | reflexivity]. Qed.

Lemma Qabs_diff_bound z P n dd B :
  (Z.abs (z * Zpos dd - n * Zpos P) * Zpos B <= Zpos P * Zpos dd)%Z ->
  Qabs (inject_Z z * (1 # P) - (n # dd)) <= 1 # B.
Proof.
  intro H. unfold Qle, Qabs, Qminus, Qplus, Qopp, Qmult, inject_Z. simpl.
  rewrite !Pos2Z.inj_mul. nia.
Qed.

(** The exponent chosen by [fl32] for a value below 32 in magnitude. *)
Lemma fl32_exp_small n dd :
  (Z.abs n < 32 * Zpos dd)%Z -> (Z.abs n <> 0)%Z ->
  ((if Qle_bool (pow2 (Z.log2 (Z.abs n) - Z.log2 (Zpos dd)))
         (inject_Z (Z.abs n) / inject_Z (Zpos dd))
    then (Z.log2 (Z.abs n) - Z.log2 (Zpos dd))%Z
    else (Z.log2 (Z.abs n) - Z.log2 (Zpos dd) - 1)%Z) <= 4)%Z.
Proof.
  intros H32 H0.
  destruct (Qle_bool _ _) eqn:E.
  - apply Qle_bool_iff in E. rewrite <- Qmake_Qdiv in E.
    assert (Hlt : pow2 (Z.log2 (Z.abs n) - Z.log2 (Zpos dd)) < pow2 5).
    { eapply Qle_lt_trans; [exact E|]. unfold Qlt; simpl. lia. }
    apply pow2_lt_inv in Hlt. lia.
  - destruct (Z.log2_spec (Z.abs n) ltac:(lia)) as [La _].
    destruct (Z.log2_spec (Zpos dd) ltac:(lia)) as [_ Ld].
    pose proof (Z.log2_nonneg (Z.abs n)). pose proof (Z.log2_nonneg (Zpos dd)).
    assert (Hp : (2 ^ Z.log2 (Z.abs n) < 2 ^ (Z.log2 (Zpos dd) + 6))%Z).
    { rewrite Z.pow_add_r by lia. rewrite Z.pow_succ_r in Ld by lia.
      change (2 ^ 6)%Z with 64%Z. lia. }
    apply Z.pow_lt_mono_r_iff in Hp; lia.
Qed.

Lemma fl32_abs_err x : Qabs x < 32 -> Qabs (fl32 x - x) <= 1 # 1048576.
Proof.
  destruct x as [n dd]. intro H32.
  assert (H32' : (Z.abs n < 32 * Zpos dd)%Z)
    by (unfold Qlt, Qabs in H32; simpl in H32; lia).
  unfold fl32; cbn [Qnum Qden].
  destruct (Z.eqb_spec (Z.abs n) 0) as [H0|H0].
  - assert (n = 0%Z) by lia. subst n. unfold Qle; simpl. lia.
  - pose proof (fl32_exp_small n dd H32' H0) as He.
    set (e := if Qle_bool _ _ then _ else _) in *.
    set (K := (- Z.max (e - 23) (-149))%Z).
    assert (HK : (19 <= K)%Z) by lia.
    replace (Z.max (e - 23) (-149)) with (- K)%Z by lia.
    replace (- K <=? 0)%Z with true by (symmetry; apply Z.leb_le; lia).
    replace (- - K)%Z with K by lia.
    assert (HP : (0 < 2 ^ K)%Z) by (apply Z.pow_pos_nonneg; lia).
    destruct (2 ^ K)%Z as [|P|P] eqn:EP; try lia.
    assert (HP19 : (2 ^ 19 <= Zpos P)%Z)
      by (rewrite <- EP; apply Z.pow_le_mono_r; lia).
    rewrite (pow2_neg K P) by lia.
    apply Qabs_diff_bound.
    pose proof (round_ne_spec (Z.abs n * Zpos P) (Zpos dd) ltac:(lia)) as R.
    set (m := round_ne (Z.abs n * Zpos P) (Zpos dd)) in *.
    destruct (Z.sgn_spec n) as [[Hn Hs]|[[Hn Hs]|[Hn Hs]]]; [|lia|].
    + rewrite Hs. rewrite (Z.abs_eq n) in R by lia.
      match goal with |- (Z.abs ?X * _ <= _)%Z =>
        assert (A : (Z.abs X * 2 <= Zpos dd)%Z) by lia;
        assert (B : (Z.abs X * 2 * 2 ^ 19 <= Zpos dd * Zpos P)%Z)
          by (apply Z.mul_le_mono_nonneg; lia);
        lia end.
    + rewrite Hs. rewrite (Z.abs_neq n) in R by lia.
      match goal with |- (Z.abs ?X * _ <= _)%Z =>
        assert (A : (Z.abs X * 2 <= Zpos dd)%Z) by lia;
        assert (B : (Z.abs X * 2 * 2 ^ 19 <= Zpos dd * Zpos P)%Z)
          by (apply Z.mul_le_mono_nonneg; lia);
        lia end.
Qed.

Lemma fl32_exact19 j : (Z.abs j < 32 * 524288)%Z -> fl32 (j # 524288) == j # 524288.
Proof.
  intro H32.
  assert (H32' : (Z.abs j < 32 * Zpos 524288)%Z) by exact H32.
  unfold fl32; cbn [Qnum Qden].
  destruct (Z.eqb_spec (Z.abs j) 0) as [H0|H0].
  - assert (j = 0%Z) by lia. subst j. reflexivity.
  - pose proof (fl32_exp_small j 524288 H32' H0) as He.
    set (e := if Qle_bool _ _ then _ else _) in *.
    set (K := (- Z.max (e - 23) (-149))%Z).
    assert (HK : (19 <= K)%Z) by lia.
    replace (Z.max (e - 23) (-149)) with (- K)%Z by lia.
    replace (- K <=? 0)%Z with true by (symmetry; apply Z.leb_le; lia).
    replace (- - K)%Z with K by lia.
    assert (EK : (2 ^ K = 2 ^ (K - 19) * 524288)%Z).
    { replace K with (K - 19 + 19)%Z at 1 by lia. rewrite Z.pow_add_r by lia. reflexivity. }
    assert (HJ : (0 < 2 ^ (K - 19))%Z) by (apply Z.pow_pos_nonneg; lia).
    assert (HP : (0 < 2 ^ K)%Z) by (apply Z.pow_pos_nonneg; lia).
    rewrite round_ne_exact.
    2: lia.
    2: { rewrite EK, Z.mul_assoc. apply Z.mod_mul. lia. }
    rewrite EK at 1. rewrite Z.mul_assoc, Z.div_mul by lia.
    destruct (2 ^ K)%Z as [|P|P] eqn:EP; try lia.
    rewrite (pow2_neg K P) by lia.
    unfold Qeq; simpl. rewrite Z.mul_1_r.
    replace (Zpos P) with (2 ^ (K - 19) * 524288)%Z by lia.
    destruct (Z.sgn_spec j) as [[Hj ->]|[[Hj ->]|[Hj ->]]];
      [rewrite (Z.abs_eq j) by lia | lia | rewrite (Z.abs_neq j) by lia]; ring.
Qed.

Lemma fl32_bounds x : Qabs x < 32 -> x - (1 # 1048576) <= fl32 x <= x + (1 # 1048576).
Proof.
  intro H. pose proof (fl32_abs_err x H) as E.
  apply Qabs_Qle_condition in E. lra.
Qed.

Lemma Qabs_cases x : (Qabs x == x /\ 0 <= x) \/ (Qabs x == - x /\ x <= 0).
Proof.
  destruct (Qlt_le_dec 0 x).
  - left. split; [apply Qabs_pos|]; lra.
  - right. split; [apply Qabs_neg|]; lra.
Qed.

Lemma epsilonCompare_f32_agree v1 v2 :
  Qabs v1 <= 31 ->
  Qabs (v1 - v2) <= (7 # 10) - (1 # 524288) \/ (7 # 10) + (1 # 524288) <= Qabs (v1 - v2) ->
  epsilonCompare_f32 v1 v2 tol_f32 = epsilonCompare v1 v2 tol.
Proof.
  intros H31 Hd.
  apply Qabs_Qle_condition in H31.
  assert (B1 : Qabs (v1 - tol_f32) < 32)
    by (apply Qabs_Qlt_condition; unfold tol_f32; lra).
  assert (B2 : Qabs (v1 + tol_f32) < 32)
    by (apply Qabs_Qlt_condition; unfold tol_f32; lra).
  pose proof (fl32_bounds _ B1). pose proof (fl32_bounds _ B2).
  unfold epsilonCompare_f32, epsilonCompare, tol, tol_f32 in *.
  destruct (Qabs_cases (v1 - v2)) as [[Ea Sa]|[Ea Sa]]; rewrite Ea in Hd;
  repeat match goal with |- context [Qltb ?a ?b] => destruct (Qltb_spec a b) end;
  simpl; try reflexivity; exfalso; lra.
Qed.

Lemma word_print s :
  word (fst (print s)) =
  if onArm s && pose_is_fist (currentPose s)
  then word s ++ matchLetterToGesture (gestures s) else word s.
Proof.
  destruct (onArm s) eqn:Ha; [|unfold print; now rewrite Ha].
  destruct (currentPose s) eqn:Hp;
    try (rewrite print_fist by assumption; reflexivity);
    try (unfold print; rewrite Ha, Hp; reflexivity);
    (destruct (at_home s) eqn:Hh;
     [ rewrite print_home by (try rewrite Hp; auto)
     | rewrite print_away by (try rewrite Hp; auto) ];
     cbn [word observe_delta andb pose_is_fist];
     [ apply home_reached_fields | reflexivity ]).
Qed.

(** * Claims *)

(** C1 (counterexample): for the pose sequence [fist, roll deviates, home
    reached, fist] the Word after the second fist is not exactly "c": the
    first fist already commits the default letter " " for the empty buffer. *)
Lemma C1_counterexample :
  word (fst (run scenario_C1 (synced 0 0 0))) = " c" /\
  word (fst (run scenario_C1 (synced 0 0 0))) <> "c".
Proof. split; [reflexivity | discriminate]. Qed.

(** C1 (amended): from any synced collector with an empty Gesture Buffer and
    accumulators below the roll deviation [d] by more than 2^-20 (the float
    rounding of the deviation), the updates fist at home,
    roll moved by [d], back at home, fist again leave the Word extended by
    exactly " c": the space committed by the first fist, then the letter "c"
    of the buffer "roll".  The display values are in [0, 18] (claim C2) and
    [d] is at least 0.75, clear of the tolerance 0.7f by more than the float
    rounding of the test, so the code's float test decides every step as
    the exact one does ([epsilonCompare_f32_agree]). *)
Theorem C1_word_after_second_fist s r p y d :
  onArm s = true -> gestures s = "" -> 3#4 <= d ->
  0 <= r -> r + d <= 18 -> 0 <= p <= 18 -> 0 <= y <= 18 ->
  max_roll s < d - (1 # 1048576) -> max_pitch s < d - (1 # 1048576) ->
  max_yaw s < d - (1 # 1048576) ->
  word (fst (run [(r,p,y,fist); (r+d,p,y,rest); (r,p,y,rest); (r,p,y,fist)] s))
  = word s ++ " c".
Proof.
  destruct s as [arm unl rw pw yw cp hr hy hp mr my mp g w].
  cbn [onArm gestures max_roll max_pitch max_yaw word].
  intros Ha Hg Hd0 _ _ _ _ Hr0 Hp0 Hy0. subst arm g.
  assert (Hd : 7#10 < d) by lra.
  assert (Hr : mr < d) by lra. assert (Hp : mp < d) by lra.
  assert (Hy : my < d) by lra. clear Hd0 Hr0 Hp0 Hy0.
  assert (Ed : Qabs (r + d - r) == d) by (rewrite Qabs_pos; lra).
  pose proof (Qabs_self p); pose proof (Qabs_self y); pose proof (Qabs_self r).
  rewrite fst_run. cbv [fold_left].
  repeat (tick_step; qcases).
  all: rewrite string_append_assoc; reflexivity.
Qed.

Lemma C1_word_after_second_fist_witness :
  word (fst (run [(9,9,9,fist); (9+3,9,9,rest); (9,9,9,rest); (9,9,9,fist)]
                 (synced 0 0 0))) = word (synced 0 0 0) ++ " c".
Proof.
  apply (C1_word_after_second_fist (synced 0 0 0) 9 9 9 3);
    try reflexivity; unfold synced; simpl; try split; lra.
Defined.

(** C3: on every update in which "home reached" fires, the Gesture Buffer is
    extended by exactly the label of the axis whose accumulator is strictly
    greatest, and by nothing on a tie for the maximum. *)
Theorem C3_label_of_strict_max s :
  fired_count (snd (print s)) = 1%nat ->
  gestures (fst (print s)) =
  gestures s ++ dominant_label (max_roll s) (max_pitch s) (max_yaw s).
Proof.
  intro H. destruct (fired_print s H) as (Ha & Hp & Hh).
  rewrite print_home by assumption. clear H Ha Hp Hh.
  destruct s as [arm unl rw pw yw cp hr hy hp mr my mp g w].
  unfold observe_delta, home_reached, dominant_label.
  cbn [gestures fst max_roll max_pitch max_yaw].
  qcases; cbn [fst gestures];
    try rewrite string_append_nil_r; reflexivity.
Qed.

Lemma C3_label_of_strict_max_witness :
  let s := set_orientation 9 9 9 (fst (tick 12 9 9 rest home_set_state)) in
  fired_count (snd (print s)) = 1%nat /\ gestures (fst (print s)) = "roll".
Proof.
  intro s. split; [reflexivity|].
  rewrite (C3_label_of_strict_max s eq_refl). reflexivity.
Defined.

(** C4 (counterexample): "home reached" is not idempotent: with Home
    Reference (9,9,9) set and the Orientation staying at (9,9,9), it fires
    on both of two consecutive updates. *)
Lemma C4_counterexample :
  fired_count (snd (run [(9,9,9,rest); (9,9,9,rest)] home_set_state)) = 2%nat.
Proof. reflexivity. Qed.

(** C4 (amended): with the arm synced and a pose other than fist,
    fingersSpread and waveOut, "home reached" fires exactly once on an
    update whose Orientation is within 0.7 of Home Reference on all axes,
    and fires again on the next update if nothing moved. *)
Theorem C4_home_reached_every_update s :
  onArm s = true -> plain_pose (currentPose s) = true -> at_home s = true ->
  fired_count (snd (print s)) = 1%nat /\
  fired_count (snd (print (fst (print s)))) = 1%nat.
Proof.
  intros Ha Hp Hh. rewrite !fired_count_print, Ha, Hp, Hh. split; [reflexivity|].
  rewrite print_home by assumption.
  destruct (home_reached_fields s) as (Ea & Ec & _).
  rewrite at_home_observe, at_home_home_reached, Hh.
  unfold observe_delta; cbn [onArm currentPose]. now rewrite Ea, Ec, Ha, Hp.
Qed.

Lemma C4_home_reached_every_update_witness :
  let s := onPose rest home_set_state in
  fired_count (snd (print s)) = 1%nat /\
  fired_count (snd (print (fst (print s)))) = 1%nat.
Proof. intro s. apply C4_home_reached_every_update; reflexivity. Defined.




(** C6: while Home Reference still holds its sentinel -1 on all three axes,
    "home reached" never fires for display values in [0, 18], the range the
    Orientation Decoder produces (claim C2). *)
Theorem C6_no_home_reached_unset s :
  home_roll s == -1 -> home_pitch s == -1 -> home_yaw s == -1 ->
  0 <= roll_w s <= 18 -> 0 <= pitch_w s <= 18 -> 0 <= yaw_w s <= 18 ->
  fired_count (snd (print s)) = 0%nat.
Proof.
  intros Hr _ _ Br _ _.
  rewrite fired_count_print.
  replace (at_home s) with false; [now rewrite Bool.andb_false_r|].
  symmetry. unfold at_home.
  rewrite (eps_false (roll_w s) (home_roll s) tol) by (unfold tol; lra).
  reflexivity.
Qed.

Lemma C6_no_home_reached_unset_witness :
  fired_count (snd (print (synced 0 0 0))) = 0%nat.
Proof.
  apply C6_no_home_reached_unset; unfold synced; simpl; lra.
Defined.

(** C7: in the Letter Table the later assignment of a duplicated key wins:
    "rollpitch" maps to "d" and "rollpitchyaw" to "g". *)
Theorem C7_later_keys_overwrite :
  matchLetterToGesture "rollpitch" = "d" /\
  matchLetterToGesture "rollpitchyaw" = "g".
Proof. split; reflexivity. Qed.



(** C9 (counterexample): Home Reference is captured again on a second
    consecutive update whose pose is still fist. *)
Lemma C9_counterexample :
  home_roll (fst (run [(9,9,9,fist)] (synced 0 0 0))) = 9 /\
  home_roll (fst (run [(9,9,9,fist); (12,9,9,fist)] (synced 0 0 0))) = 12.
Proof. split; reflexivity. Qed.

(** C9 (amended): an update sets Home Reference from the current Orientation
    exactly when the arm is synced and the current pose is fist, whether or
    not the previous update had the fist pose already; every other update
    leaves Home Reference unchanged.  Each such fist update also commits a
    letter: the Word is extended by the Letter Table entry of the Gesture
    Buffer, the letter is printed and the buffer is cleared; no other update
    changes the Word. *)
Theorem C9_home_capture s :
  (home_roll (fst (print s)), home_pitch (fst (print s)), home_yaw (fst (print s))) =
  (if onArm s && pose_is_fist (currentPose s)
   then (roll_w s, pitch_w s, yaw_w s)
   else (home_roll s, home_pitch s, home_yaw s)) /\
  word (fst (print s)) =
  (if onArm s && pose_is_fist (currentPose s)
   then word s ++ matchLetterToGesture (gestures s) else word s) /\
  (if onArm s && pose_is_fist (currentPose s)
   then gestures (fst (print s)) = "" /\
        In (EvLetter (matchLetterToGesture (gestures s))) (snd (print s))
   else True).
Proof.
  split; [|split; [apply word_print|]].
  - destruct (onArm s) eqn:Ha.
    2: { unfold print. now rewrite Ha. }
    destruct (plain_pose (currentPose s)) eqn:Hp.
    + assert (Hf : pose_is_fist (currentPose s) = false)
        by (destruct (currentPose s); simpl in *; congruence).
      rewrite Hf. simpl.
      destruct (at_home s) eqn:Hh.
      * rewrite print_home by assumption.
        destruct (home_reached_fields s) as (_ & _ & _ & _ & _ & Hr & Hpp & Hy & _).
        unfold observe_delta; cbn [home_roll home_pitch home_yaw].
        now rewrite Hr, Hpp, Hy.
      * now rewrite print_away by assumption.
    + unfold print. rewrite Ha.
      destruct (currentPose s); simpl in Hp |- *; try discriminate; reflexivity.
  - destruct (onArm s) eqn:Ha; [|exact I].
    destruct (currentPose s) eqn:Hp; try exact I.
    rewrite print_fist by assumption. simpl. split; [reflexivity | right; left; reflexivity].
Qed.

(** C10: a non-empty gesture string that is none of the eleven non-empty
    keys of the Letter Table maps to the empty string, so a fist commit with
    that buffer leaves the Word unchanged. *)
Theorem C10_unknown_gesture_empty g :
  g <> "" ->
  ~ In g ["pitchyawpitch"; "rollpitch"; "roll"; "rollpitch"; "rollpitchyaw";
          "pitchpitchyaw"; "rollpitchyaw"; "pitchroll"; "yawpitchyaw";
          "yawpitchroll"; "pitchyawyaw"] ->
  matchLetterToGesture g = "" /\
  (forall s, onArm s = true -> currentPose s = fist -> gestures s = g ->
     word (fst (print s)) = word s).
Proof.
  intros Hne Hin.
  assert (Hm : matchLetterToGesture g = "").
  { unfold matchLetterToGesture.
    change letterMap with
      [(""," "); ("pitchyawpitch","a"); ("rollpitch","d"); ("roll","c");
       ("rollpitchyaw","g"); ("pitchpitchyaw","f"); ("pitchroll","h");
       ("yawpitchyaw","i"); ("yawpitchroll","j"); ("pitchyawyaw","k")].
    cbn [StrMap.get].
    repeat match goal with
    | |- context [String.eqb g ?k] => destruct (String.eqb_spec g k)
    end; subst; try reflexivity; exfalso;
      first [now apply Hne | apply Hin; simpl; tauto]. }
  split; [exact Hm|].
  intros s Ha Hp Hg. rewrite print_fist by assumption.
  unfold commit_fist; cbn [fst word]. rewrite Hg, Hm.
  apply string_append_nil_r.
Qed.

Lemma C10_unknown_gesture_empty_witness :
  matchLetterToGesture "yawyaw" = "".
Proof.
  apply (C10_unknown_gesture_empty "yawyaw"); [discriminate | simpl; intuition discriminate].
Defined.

(** C2: for every unit quaternion the three display values of the
    Orientation Decoder lie in [0, 18], and the clamped argument of the
    pitch arcsine lies in [-1, 1]. *)
Theorem C2_display_values_in_range w x y z :
  Decoder.unit_quaternion w x y z ->
  let '(rw, pw, yw) := Decoder.onOrientationData w x y z in
  (0 <= rw <= 18 /\ 0 <= pw <= 18 /\ 0 <= yw <= 18 /\
   -1 <= Decoder.pitch_arg w x y z <= 1)%R.
Proof.
  intros _. unfold Decoder.onOrientationData.
  pose proof PI_RGT_0 as Hpi.
  pose proof (Decoder.atan2_bound (2 * (w * x + y * z)) (1 - 2 * (x * x + y * y)))
    as Hr.
  pose proof (Decoder.atan2_bound (2 * (w * z + x * y)) (1 - 2 * (y * y + z * z)))
    as Hy.
  pose proof (asin_bound (Decoder.pitch_arg w x y z)) as Hp.
  unfold Decoder.roll_of, Decoder.yaw_of, Decoder.pitch_of.
  repeat split;
    first [ apply Decoder.scale_bound; Lra.lra
          | apply Decoder.clamp_bound ].
Qed.

Lemma C2_display_values_in_range_witness :
  Decoder.unit_quaternion 1 0 0 0 /\
  let '(rw, pw, yw) := Decoder.onOrientationData 1 0 0 0 in
  (0 <= rw <= 18 /\ 0 <= pw <= 18 /\ 0 <= yw <= 18 /\
   -1 <= Decoder.pitch_arg 1 0 0 0 <= 1)%R.
Proof.
  assert (H : Decoder.unit_quaternion 1 0 0 0)
    by (unfold Decoder.unit_quaternion; Lra.lra).
  split; [exact H | exact (C2_display_values_in_range 1 0 0 0 H)].
Defined.

(** ** Further properties of the tracker *)

Lemma string_length_app (a b : string) :
  String.length (a ++ b) = (String.length a + String.length b)%nat.
Proof. induction a as [|c a IH]; simpl; [reflexivity | now rewrite IH]. Qed.

Lemma chars_length n c : String.length (chars n c) = n.
Proof. induction n as [|n IH]; simpl; [reflexivity | now rewrite IH]. Qed.

Lemma letter_length g : (String.length (matchLetterToGesture g) <= 1)%nat.
Proof.
  unfold matchLetterToGesture.
  let m := eval vm_compute in letterMap in change letterMap with m.
  cbn [StrMap.get].
  repeat match goal with |- context [String.eqb ?a ?b] => destruct (String.eqb a b) end;
  simpl; lia.
Qed.

Lemma word_tick r p y pose s :
  exists l, word (fst (tick r p y pose s)) = word s ++ l /\
            (String.length l <= 1)%nat.
Proof.
  unfold tick. rewrite word_print. cbn [onArm currentPose word gestures onPose set_orientation].
  destruct (onArm s && pose_is_fist pose).
  - eexists; split; [reflexivity | apply letter_length].
  - exists ""; split; [symmetry; apply string_append_nil_r | simpl; lia].
Qed.

Lemma gestures_home_reached s :
  gestures (fst (home_reached s)) =
  gestures s ++ dominant_label (max_roll s) (max_pitch s) (max_yaw s).
Proof.
  destruct s as [arm unl rw pw yw cp hr hy hp mr my mp g w].
  unfold home_reached, dominant_label.
  cbn [gestures fst max_roll max_pitch max_yaw].
  qcases; cbn [fst gestures];
    try rewrite string_append_nil_r; reflexivity.
Qed.

Lemma labels_dominant g r p y :
  labels g -> labels (g ++ dominant_label r p y).
Proof.
  intro H. unfold dominant_label.
  repeat match goal with |- context [if ?b then _ else _] => destruct b end;
    first [ rewrite string_append_nil_r; exact H
          | apply labels_snoc; [exact H | simpl; tauto] ].
Qed.

Lemma labels_print s : labels (gestures s) -> labels (gestures (fst (print s))).
Proof.
  intro H. destruct (onArm s) eqn:Ha; [|unfold print; now rewrite Ha].
  destruct (currentPose s) eqn:Hp;
    try (rewrite print_fist by assumption; apply labels_nil);
    try (unfold print; rewrite Ha, Hp; exact H);
    (destruct (at_home s) eqn:Hh;
     [ rewrite print_home by (try rewrite Hp; auto)
     | rewrite print_away by (try rewrite Hp; auto) ];
     cbn [gestures observe_delta];
     [ rewrite gestures_home_reached; now apply labels_dominant | exact H ]).
Qed.

Ltac split3 := refine (conj _ (conj _ _)).

(** Unfold a plain-pose update, with or without "home reached". *)
Ltac plain_expand s :=
  first
  [ rewrite print_home by (try match goal with H : currentPose s = _ |- _ =>
                                 rewrite H end; auto);
    let Er := fresh in let Ep := fresh in let Ey := fresh in
    let Hr := fresh in let Hp := fresh in let Hy := fresh in
    let Mr := fresh in let Mp := fresh in let My := fresh in
    destruct (home_reached_fields s)
      as (_ & _ & Er & Ep & Ey & Hr & Hp & Hy & Mr & Mp & My & _);
    unfold observe_delta; cbn [max_roll max_pitch max_yaw];
    rewrite Er, Ep, Ey, Hr, Hp, Hy, Mr, Mp, My
  | rewrite print_away by (try match goal with H : currentPose s = _ |- _ =>
                                 rewrite H end; auto);
    unfold observe_delta; cbn [max_roll max_pitch max_yaw] ].

(** Decide the accumulator comparisons. *)
Ltac acc_cases :=
  repeat match goal with
  | |- context [Qltb ?a ?b] => destruct (Qltb_spec a b)
  | |- context [Qeq_bool ?a ?b] => destruct (Qeqb_spec a b)
  end; cbn [andb negb].

Lemma max_nonneg_print s :
  0 <= max_roll s -> 0 <= max_pitch s -> 0 <= max_yaw s ->
  0 <= max_roll (fst (print s)) /\ 0 <= max_pitch (fst (print s)) /\
  0 <= max_yaw (fst (print s)).
Proof.
  intros Hr Hp0 Hy0.
  destruct (onArm s) eqn:Ha; [|unfold print; rewrite Ha; simpl; split3; assumption].
  pose proof (Qabs_nonneg (roll_w s - home_roll s)).
  pose proof (Qabs_nonneg (pitch_w s - home_pitch s)).
  pose proof (Qabs_nonneg (yaw_w s - home_yaw s)).
  destruct (currentPose s) eqn:Hp;
    try (rewrite print_fist by assumption; simpl; split3; assumption);
    try (unfold print; rewrite Ha, Hp; simpl; split3; assumption);
    idtac.
  all: destruct (at_home s) eqn:Hh; plain_expand s; acc_cases;
    split3; lra.
Qed.

Lemma tick_unsynced r p y pose s :
  onArm s = false ->
  tick r p y pose s = (onPose pose (set_orientation r p y s), []).
Proof. intro H. unfold tick, print. cbn [onArm onPose set_orientation]. now rewrite H. Qed.

(** X1: the Word changes only in an update with the arm synced and the pose
    fist; every other update leaves it as it is. *)
Theorem X1_word_only_on_fist s :
  onArm s = false \/ currentPose s <> fist ->
  word (fst (print s)) = word s.
Proof.
  intro H. rewrite word_print.
  destruct (onArm s); [|reflexivity].
  destruct H as [H|H]; [discriminate|].
  destruct (currentPose s); try reflexivity. now destruct H.
Qed.

Lemma X1_word_only_on_fist_witness :
  let s := set_orientation 5 5 5 (onPose waveOut (synced 0 0 0)) in
  (onArm s = false \/ currentPose s <> fist) /\ word (fst (print s)) = word s.
Proof.
  intro s. assert (H : onArm s = false \/ currentPose s <> fist)
    by (right; discriminate).
  exact (conj H (X1_word_only_on_fist s H)).
Defined.

(** X2: over any sequence of main-loop iterations the Word is only ever
    extended, never shortened or rewritten, and by at most one character
    per iteration. *)
Theorem X2_word_prefix_run ins s :
  exists suf, word (fst (run ins s)) = word s ++ suf /\
              (String.length suf <= length ins)%nat.
Proof.
  rewrite fst_run. revert s.
  induction ins as [|[[[r p] y] pose] ins IH]; intro s.
  - exists ""; split; [symmetry; apply string_append_nil_r | simpl; lia].
  - simpl. destruct (word_tick r p y pose s) as (l & El & Ll).
    destruct (IH (fst (tick r p y pose s))) as (suf & Es & Ls).
    exists (l ++ suf). rewrite Es, El, string_append_assoc.
    split; [reflexivity|]. rewrite string_length_app. simpl. lia.
Qed.

(** X3: the Gesture Buffer is always a concatenation of the labels "yaw",
    "roll" and "pitch": starting from such a buffer (the initial one is
    empty), every sequence of main-loop iterations keeps it so. *)
Theorem X3_gestures_are_labels ins s :
  labels (gestures s) -> labels (gestures (fst (run ins s))).
Proof.
  rewrite fst_run. revert s.
  induction ins as [|[[[r p] y] pose] ins IH]; intros s H; [exact H|].
  simpl. apply IH. unfold tick. apply labels_print. exact H.
Qed.

Lemma X3_gestures_are_labels_witness :
  labels (gestures (fst (run scenario_C1 (synced 0 0 0)))).
Proof. apply X3_gestures_are_labels. apply labels_nil. Defined.

(** X4: in an update in which "home reached" does not fire, no Deviation
    Accumulator decreases. *)
Theorem X4_accumulators_monotone s :
  fired_count (snd (print s)) = 0%nat ->
  max_roll s <= max_roll (fst (print s)) /\
  max_pitch s <= max_pitch (fst (print s)) /\
  max_yaw s <= max_yaw (fst (print s)).
Proof.
  rewrite fired_count_print. intro H.
  destruct (onArm s) eqn:Ha; [|unfold print; rewrite Ha; simpl; split3; lra].
  destruct (currentPose s) eqn:Hp;
    try (rewrite print_fist by assumption; simpl; split3; lra);
    try (unfold print; rewrite Ha, Hp; simpl; split3; lra);
    idtac.
  all: cbn [andb plain_pose] in H; destruct (at_home s) eqn:Hh; [discriminate|].
  all: plain_expand s; acc_cases; split3; lra.
Qed.

Lemma X4_accumulators_monotone_witness :
  let s := set_orientation 12 9 9 (onPose rest home_set_state) in
  fired_count (snd (print s)) = 0%nat /\ max_roll s <= max_roll (fst (print s)).
Proof.
  intro s. assert (H : fired_count (snd (print s)) = 0%nat) by reflexivity.
  exact (conj H (proj1 (X4_accumulators_monotone s H))).
Defined.



(** X6: if the Deviation Accumulators start non-negative (in the source they
    are left uninitialised until the first "home reached"), they stay
    non-negative over every sequence of main-loop iterations. *)
Theorem X6_accumulators_nonneg_run ins s :
  0 <= max_roll s -> 0 <= max_pitch s -> 0 <= max_yaw s ->
  0 <= max_roll (fst (run ins s)) /\ 0 <= max_pitch (fst (run ins s)) /\
  0 <= max_yaw (fst (run ins s)).
Proof.
  rewrite fst_run. revert s.
  induction ins as [|[[[r p] y] pose] ins IH]; intros s Hr Hp Hy;
    [split3; assumption|].
  simpl. unfold tick.
  destruct (max_nonneg_print (onPose pose (set_orientation r p y s)) Hr Hp Hy)
    as (Hr' & Hp' & Hy').
  now apply IH.
Qed.

Lemma X6_accumulators_nonneg_run_witness :
  0 <= max_roll (synced 0 0 0) /\
  0 <= max_roll (fst (run scenario_C1 (synced 0 0 0))).
Proof.
  assert (H : 0 <= max_roll (synced 0 0 0)) by (unfold synced; simpl; lra).
  assert (H' : 0 <= max_pitch (synced 0 0 0)) by (unfold synced; simpl; lra).
  assert (H'' : 0 <= max_yaw (synced 0 0 0)) by (unfold synced; simpl; lra).
  exact (conj H (proj1 (X6_accumulators_nonneg_run scenario_C1 _ H H' H''))).
Defined.

Lemma to_size_floor v : to_size v = Z.to_nat (Qfloor v).
Proof. now destruct v. Qed.

(** X8: a gauge printed for a display value v in [0, 18] that is a multiple
    of 2^-19 (every [float] in [16, 18], and those of the coarser grid below)
    is 20 characters wide (18 inside the brackets) only when v is a whole
    number; otherwise [18 - v] is exact in [float] and both [size_t]
    conversions truncate, so it is 19 wide. *)
Theorem X8_gauge_width k :
  (0 <= k <= 18 * 524288)%Z ->
  String.length (gauge (k # 524288)) =
  if (k mod 524288 =? 0)%Z then 20%nat else 19%nat.
Proof.
  intros [H0 H18]. unfold gauge.
  change (18 - (k # 524288)) with ((18 * 524288 + - k * 1)%Z # 524288).
  rewrite !string_length_app, !chars_length. cbn [String.length].
  rewrite !to_size_floor, (Qfloor_comp _ _ (fl32_exact19 (18 * 524288 + - k * 1) ltac:(lia))).
  unfold Qfloor.
  replace (18 * 524288 + - k * 1)%Z with (18 * 524288 + - k)%Z by ring.
  rewrite Z.div_add_l by lia.
  assert (Hq : (0 <= k / 524288)%Z) by (apply Z.div_pos; lia).
  assert (Hq18 : (k / 524288 <= 18)%Z) by (apply Z.div_le_upper_bound; lia).
  destruct (Z.eqb_spec (k mod 524288) 0) as [Hm|Hm].
  - rewrite Z.div_opp_l_z by lia. lia.
  - rewrite Z.div_opp_l_nz by lia.
    assert (Hlt : (k / 524288 < 18)%Z).
    { apply Z.div_lt_upper_bound; [lia|].
      assert (k <> 18 * 524288)%Z.
      { intro E; apply Hm; rewrite E, Z.mod_mul by lia; reflexivity. }
      lia. }
    lia.
Qed.

Lemma X8_gauge_width_witness :
  (0 <= 4980736 <= 18 * 524288)%Z /\ String.length (gauge (4980736 # 524288)) = 19%nat.
Proof.
  assert (H : (0 <= 4980736 <= 18 * 524288)%Z) by lia.
  exact (conj H (X8_gauge_width 4980736 H)).
Defined.

(** X9: the arm fields of the status line are always 29 characters wide:
    lock state, arm and pose padded to 14 when the arm is synced, and the
    blank placeholder when it is not. *)
Theorem X9_arm_fields_width s leftArm :
  String.length (render_arm s leftArm) = 29%nat.
Proof.
  unfold render_arm.
  destruct (onArm s), (isUnlocked s), leftArm, (currentPose s); reflexivity.
Qed.

(** X10: while the arm is not synced (for instance after [onUnpair] or
    [onArmUnsync]), main-loop iterations print no events and leave Home
    Reference, the Deviation Accumulators, the Gesture Buffer and the Word
    unchanged, however many of them run. *)
Theorem X10_unsynced_run_inert ins s :
  onArm s = false ->
  snd (run ins s) = [] /\
  let s' := fst (run ins s) in
  home_roll s' = home_roll s /\ home_pitch s' = home_pitch s /\
  home_yaw s' = home_yaw s /\ max_roll s' = max_roll s /\
  max_pitch s' = max_pitch s /\ max_yaw s' = max_yaw s /\
  gestures s' = gestures s /\ word s' = word s.
Proof.
  revert s. induction ins as [|[[[r p] y] pose] ins IH]; intros s Ha.
  - simpl. repeat split.
  - simpl. rewrite tick_unsynced by exact Ha.
    destruct (IH (onPose pose (set_orientation r p y s)) Ha) as [E H].
    destruct (run ins (onPose pose (set_orientation r p y s))) as [s2 e2].
    simpl in E, H |- *. subst e2. exact (conj eq_refl H).
Qed.

Lemma X10_unsynced_run_inert_witness :
  let s := onUnpair home_set_state in
  onArm s = false /\ snd (run scenario_C1 s) = [].
Proof.
  intro s. assert (H : onArm s = false) by reflexivity.
  exact (conj H (proj1 (X10_unsynced_run_inert scenario_C1 s H))).
Defined.

(** X11: for display values of magnitude at most 31, the code's float
    tolerance test (0.7f, with its sums rounded to [float]) decides "at home"
    as the exact test does whenever no axis deviation lies within 2^-19 of
    0.7. *)
Theorem X11_float_home_test_agrees s :
  Qabs (roll_w s) <= 31 -> Qabs (pitch_w s) <= 31 -> Qabs (yaw_w s) <= 31 ->
  clear_of_tol (Qabs (roll_w s - home_roll s)) ->
  clear_of_tol (Qabs (pitch_w s - home_pitch s)) ->
  clear_of_tol (Qabs (yaw_w s - home_yaw s)) ->
  at_home_f32 s = at_home s.
Proof.
  unfold clear_of_tol. intros Br Bp By Dr Dp Dy.
  unfold at_home_f32, at_home.
  rewrite !epsilonCompare_f32_agree by assumption. reflexivity.
Qed.

Lemma X11_float_home_test_agrees_witness :
  let s := set_orientation 12 9 9 (onPose rest home_set_state) in
  at_home_f32 s = at_home s.
Proof.
  intro s.
  apply X11_float_home_test_agrees;
    first [ apply Qle_bool_imp_le; reflexivity
          | left; apply Qle_bool_imp_le; reflexivity
          | right; apply Qle_bool_imp_le; reflexivity ].
Defined.
